(** * CsvStringifyStream: a transform stream that turns rows into CSV text

    Shallow embedding of [csv/csv_stringify_stream.ts].  The class extends the
    web platform's [TransformStream] with two callbacks, [start] and
    [transform]; both delegate the encoding of a row to [stringify]
    (imported from [./stringify.ts]) and talk to the stream through its
    controller ([controller.enqueue], [controller.error]).

    What is embedded from the source: the destructuring of the constructor's
    options with its defaults, the bodies of [start] and [transform] with their
    try/catch, and the two option objects handed to [stringify].

    What is the environment: the encoder [stringify] is a parameter of the
    development (any function from a batch of rows and an option object to a
    text or a thrown value), and the controller is modelled by the facts of
    the Streams standard that the callbacks rely on (see [controller_enqueue],
    [controller_error] and [write]). *)

From Stdlib Require Import ZArith.
From stdpp Require Import base option list strings pretty.

Set Default Proof Using "Type".
Set Warnings "-register-all".

(** ** JavaScript values *)

(** The chunk type of the stream is [Record<string, unknown>] or
    [Array<unknown>]; nothing in the transform inspects a chunk, so a chunk is
    any value.  Number payloads are kept as integers: no operation of the
    transform looks at them. *)
Inductive Unknown : Type :=
  | JsUndefined
  | JsNull
  | JsBoolean (b : bool)
  | JsNumber (n : Z)
  | JsString (s : string)
  | JsArray (items : list Unknown)
  | JsObject (fields : list (string * Unknown)).

(** The array [columns] seen as a value: what the literal [[columns]] holds. *)
Definition array_of_strings (columns : list string) : Unknown :=
  JsArray (JsString <$> columns).

(** A call either returns normally or completes abruptly with a thrown value. *)
Inductive Completion (T A : Type) : Type :=
  | Normal (a : A)
  | Abrupt (thrown : T).
Arguments Normal {T A} a.
Arguments Abrupt {T A} thrown.

Definition returns {T A} (r : Completion T A) : bool :=
  match r with Normal _ => true | Abrupt _ => false end.

(** ** Option objects *)

(** [interface CsvStringifyStreamOptions]: every property is optional,
    [None] is an absent (or [undefined]) property. *)
Module CsvStringifyStreamOptions.
Record t : Type := mk {
  separator : option string;
  columns : option (list string);
  crlf : option bool
}.
(** The literal [{}] of [options ?? {}]. *)
Definition empty : t := mk None None None.
End CsvStringifyStreamOptions.

(** The object literals handed to [stringify]:
    [{ separator, headers: false, crlf }] has no [columns] property,
    [{ separator, headers: false, columns, crlf }] has one. *)
Module StringifyOptions.
Record t : Type := mk {
  separator : option string;
  headers : bool;
  columns : option (list string);
  crlf : bool
}.
End StringifyOptions.

(** The three bindings of the constructor that the callbacks close over. *)
Module Closure.
Record t : Type := mk {
  separator : option string;
  columns : list string;
  crlf : bool
}.
End Closure.

(** ** The stream as the callbacks see it *)

(** Which callback performed an effect.  This label is specification-only: it
    lets the statements tell the header chunk from the data chunks. *)
Inductive Site : Type := AtStart | AtTransform.

Global Instance Site_eq_dec : EqDecision Site.
Proof. solve_decision. Defined.

Section Transform.

(** Values thrown by the encoder. *)
Context {E : Type}.

(** Values that reach a [catch] clause of the transform: whatever
    [stringify] threw, or the [TypeError] of [controller.enqueue] on a
    stream that can no longer take chunks. *)
Inductive Thrown : Type :=
  | EncoderError (e : E)
  | EnqueueTypeError.

Inductive StreamState : Type :=
  | Readable
  | Errored (reason : Thrown).

(** One invocation of [stringify]. *)
Record Call : Type := mkCall {
  call_site : Site;
  call_data : list Unknown;
  call_options : StringifyOptions.t
}.

(** One chunk accepted by [controller.enqueue]. *)
Record Chunk : Type := mkChunk {
  chunk_site : Site;
  chunk_text : string
}.

(** One [CsvStringifyStream] instance: the bindings captured by its
    callbacks, the state of the stream, the chunks emitted so far and the
    encoder calls made so far (both oldest first). *)
Record Stream : Type := mkStream {
  closure : Closure.t;
  state : StreamState;
  emitted : list Chunk;
  calls : list Call
}.

(** The record encoder of [./stringify.ts], taken as a parameter. *)
Variable stringify : list Unknown -> StringifyOptions.t -> Completion E string.

(** *** A small state-and-exception monad for the callback bodies *)

Definition Eff (A : Type) : Type := Stream -> Completion Thrown A * Stream.

Definition ret {A} (a : A) : Eff A := fun s => (Normal a, s).

Definition bind {A B} (m : Eff A) (k : A -> Eff B) : Eff B :=
  fun s =>
    match m s with
    | (Normal a, s') => k a s'
    | (Abrupt t, s') => (Abrupt t, s')
    end.

(** [try { body } catch (error) { handler(error) }] *)
Definition try_catch {A} (body : Eff A) (handler : Thrown -> Eff A) : Eff A :=
  fun s =>
    match body s with
    | (Normal a, s') => (Normal a, s')
    | (Abrupt t, s') => handler t s'
    end.

(** *** Controller

    The facts of the Streams standard used here:
    - [controller.enqueue(chunk)] appends the chunk to the output while the
      stream is readable and throws a [TypeError] otherwise;
    - [controller.error(e)] moves a readable stream to the errored state
      with reason [e] and does nothing on a stream already errored;
    - [start] runs once, inside the constructor; [transform] runs once per
      written chunk, in order, and is not run once the stream is errored
      (see [write]). *)

Definition controller_enqueue (site : Site) (text : string) : Eff unit :=
  fun s =>
    match state s with
    | Readable =>
        (Normal tt,
         mkStream (closure s) (state s)
                  (emitted s ++ [mkChunk site text]) (calls s))
    | Errored _ => (Abrupt EnqueueTypeError, s)
    end.

Definition controller_error (error : Thrown) : Eff unit :=
  fun s =>
    match state s with
    | Readable =>
        (Normal tt, mkStream (closure s) (Errored error) (emitted s) (calls s))
    | Errored _ => (Normal tt, s)
    end.

(** The call [stringify(data, options)]: recorded, then it returns the text
    or throws what the encoder threw. *)
Definition call_stringify (site : Site) (data : list Unknown)
    (options : StringifyOptions.t) : Eff string :=
  fun s =>
    let s' := mkStream (closure s) (state s) (emitted s)
                       (calls s ++ [mkCall site data options]) in
    match stringify data options with
    | Normal text => (Normal text, s')
    | Abrupt e => (Abrupt (EncoderError e), s')
    end.

Notation "'let*' x := m 'in' k" := (bind m (fun x => k))
  (at level 10, x name, m at level 100, k at level 200).

(** *** The two callbacks *)

(** The option objects of the two call sites. *)
Definition header_options (c : Closure.t) : StringifyOptions.t :=
  StringifyOptions.mk (Closure.separator c) false None (Closure.crlf c).

Definition row_options (c : Closure.t) : StringifyOptions.t :=
  StringifyOptions.mk (Closure.separator c) false
                      (Some (Closure.columns c)) (Closure.crlf c).

(** [start(controller)].  An array is truthy, so [columns && ...] is decided
    by [columns.length > 0]. *)
Definition start (c : Closure.t) : Eff unit :=
  if bool_decide (0 < length (Closure.columns c)) then
    try_catch
      (let* text := call_stringify AtStart
                      [array_of_strings (Closure.columns c)]
                      (header_options c) in
       controller_enqueue AtStart text)
      (fun error => controller_error error)
  else ret tt.

(** [transform(chunk, controller)] *)
Definition transform (c : Closure.t) (chunk : Unknown) : Eff unit :=
  try_catch
    (let* text := call_stringify AtTransform [chunk] (row_options c) in
     controller_enqueue AtTransform text)
    (fun error => controller_error error).

(** *** Constructor *)

(** [const { separator, columns = [], crlf = true } = options ?? {}] *)
Definition destructure (options : option CsvStringifyStreamOptions.t)
    : Closure.t :=
  let o := default CsvStringifyStreamOptions.empty options in
  Closure.mk (CsvStringifyStreamOptions.separator o)
             (default [] (CsvStringifyStreamOptions.columns o))
             (default true (CsvStringifyStreamOptions.crlf o)).

(** The stream that [super(...)] sets up, before [start] runs. *)
Definition fresh (c : Closure.t) : Stream := mkStream c Readable [] [].

(** [new CsvStringifyStream(options)]: [super] builds the stream and runs
    [start] once; were [start] to throw, the constructor would throw. *)
Definition constructor (options : option CsvStringifyStreamOptions.t)
    : Completion Thrown Stream :=
  let c := destructure options in
  match start c (fresh c) with
  | (Normal _, s) => Normal s
  | (Abrupt t, _) => Abrupt t
  end.

(** The instance the constructor returns (see [constructor_returns]). *)
Definition new_stream (options : option CsvStringifyStreamOptions.t)
    : Stream :=
  let c := destructure options in snd (start c (fresh c)).

(** *** Driving the stream *)

(** One chunk written to the stream.  A readable stream runs [transform] on
    it, and a throw of the callback would error the stream; an errored
    stream rejects the write without running the callback. *)
Definition write (chunk : Unknown) (s : Stream) : Stream :=
  match state s with
  | Readable =>
      match transform (closure s) chunk s with
      | (Normal _, s') => s'
      | (Abrupt t, s') => snd (controller_error t s')
      end
  | Errored _ => s
  end.

(** The chunks of an input sequence written one after the other. *)
Definition pipe (input : list Unknown) (s : Stream) : Stream :=
  foldl (fun s chunk => write chunk s) s input.

(** A whole lifetime: construction, then the input sequence. *)
Definition run (options : option CsvStringifyStreamOptions.t)
    (input : list Unknown) : Stream :=
  pipe input (new_stream options).

(** *** Observations *)

(** The output chunk sequence, as the consumer reads it. *)
Definition output (s : Stream) : list string := chunk_text <$> emitted s.

Definition is_header (c : Chunk) : bool := bool_decide (chunk_site c = AtStart).
Definition is_data (c : Chunk) : bool := bool_decide (chunk_site c = AtTransform).

(** Header chunks and data chunks of the output, in emission order. *)
Definition header_chunks (s : Stream) : list string :=
  chunk_text <$> filter (fun c => is_header c = true) (emitted s).
Definition data_chunks (s : Stream) : list string :=
  chunk_text <$> filter (fun c => is_data c = true) (emitted s).

(** *** What the encoder makes of an input sequence *)

(** The texts of the longest prefix of the input on which the per-item
    call of the encoder returns, and the value thrown at the first item on
    which it does not. *)
Fixpoint accepted (c : Closure.t) (input : list Unknown) : list string :=
  match input with
  | [] => []
  | x :: input' =>
      match stringify [x] (row_options c) with
      | Normal text => text :: accepted c input'
      | Abrupt _ => []
      end
  end.

Fixpoint rejected (c : Closure.t) (input : list Unknown) : option E :=
  match input with
  | [] => None
  | x :: input' =>
      match stringify [x] (row_options c) with
      | Normal _ => rejected c input'
      | Abrupt e => Some e
      end
  end.

(** What a call of the lifetime was given, against the closure [c]. *)
Definition given (c : Closure.t) (k : Call) : Prop :=
  StringifyOptions.separator (call_options k) = Closure.separator c
  /\ StringifyOptions.crlf (call_options k) = Closure.crlf c
  /\ StringifyOptions.headers (call_options k) = false
  /\ ((call_site k = AtTransform
       /\ StringifyOptions.columns (call_options k) = Some (Closure.columns c))
      \/ (call_site k = AtStart
          /\ StringifyOptions.columns (call_options k) = None
          /\ call_data k = [array_of_strings (Closure.columns c)])).

(** The output written out as a function of the captured configuration,
    the input sequence and the encoder, with no stream in sight: the text of
    the header call if [columns] is non-empty, then the texts of the accepted
    items; nothing at all if the header call throws. *)
Definition expected_output (c : Closure.t) (input : list Unknown)
    : list string :=
  if bool_decide (Closure.columns c = []) then accepted c input
  else
    match stringify [array_of_strings (Closure.columns c)]
                    (header_options c) with
    | Normal text => text :: accepted c input
    | Abrupt _ => []
    end.

(** The header call of a configuration returns (when there is one). *)
Definition header_returns (c : Closure.t) : bool :=
  returns (stringify [array_of_strings (Closure.columns c)]
                     (header_options c)).

(** The per-item call returns on this chunk. *)
Definition row_returns (c : Closure.t) (chunk : Unknown) : bool :=
  returns (stringify [chunk] (row_options c)).

End Transform.

Arguments Thrown E : clear implicits.
Arguments StreamState E : clear implicits.
Arguments Stream E : clear implicits.

(** ** Several instances side by side *)

(** Instances live in a realm and are named by their position in it.  A
    program constructs instances and writes chunks to them in any order. *)
Inductive Op : Type :=
  | OpNew (options : option CsvStringifyStreamOptions.t)
  | OpWrite (id : nat) (chunk : Unknown).

Abbreviation Realm E := (list (Stream E)).

Section Realm.

Context {E : Type}.
Variable stringify : list Unknown -> StringifyOptions.t -> Completion E string.

Definition step (op : Op) (r : Realm E) : Realm E :=
  match op with
  | OpNew options => r ++ [new_stream stringify options]
  | OpWrite id chunk =>
      match r !! id with
      | Some s => <[id := write stringify chunk s]> r
      | None => r
      end
  end.

Definition exec (ops : list Op) (r : Realm E) : Realm E :=
  foldl (fun r op => step op r) r ops.

(** The chunks a program writes to instance [id], in order. *)
Fixpoint writes_to (id : nat) (ops : list Op) : list Unknown :=
  match ops with
  | [] => []
  | OpWrite id' chunk :: ops' =>
      if decide (id' = id) then chunk :: writes_to id ops'
      else writes_to id ops'
  | OpNew _ :: ops' => writes_to id ops'
  end.

End Realm.

(** ** Sample encoders *)

(** [stringify] of [./stringify.ts] is not among the sources, and the
    properties below hold for every encoder.  The encoders of this module
    only serve to evaluate the development on concrete inputs. *)
Module Sample.

Definition field (v : Unknown) : Completion string string :=
  match v with
  | JsUndefined | JsNull => Normal EmptyString
  | JsBoolean b => Normal (if b then "true" else "false")
  | JsNumber n => Normal (pretty n)
  | JsString s => Normal s
  | JsArray _ | JsObject _ => Abrupt "illegal value type"
  end.

Fixpoint fields (vs : list Unknown) : Completion string (list string) :=
  match vs with
  | [] => Normal []
  | v :: vs' =>
      match field v, fields vs' with
      | Normal f, Normal fs => Normal (f :: fs)
      | Abrupt e, _ => Abrupt e
      | _, Abrupt e => Abrupt e
      end
  end.

Fixpoint property (name : string) (kv : list (string * Unknown))
    : option Unknown :=
  match kv with
  | [] => None
  | (k, v) :: kv' => if decide (k = name) then Some v else property name kv'
  end.

Fixpoint pick (columns : list string) (kv : list (string * Unknown))
    : Completion string (list Unknown) :=
  match columns with
  | [] => Normal []
  | name :: columns' =>
      match property name kv, pick columns' kv with
      | Some v, Normal vs => Normal (v :: vs)
      | None, _ => Abrupt "inconsistent row shape"
      | _, Abrupt e => Abrupt e
      end
  end.

Fixpoint join (sep : string) (fs : list string) : string :=
  match fs with
  | [] => EmptyString
  | [f] => f
  | f :: fs' => f +:+ sep +:+ join sep fs'
  end.

Definition CR : string := String (Ascii.ascii_of_nat 13) EmptyString.
Definition LF : string := String (Ascii.ascii_of_nat 10) EmptyString.

Definition line (options : StringifyOptions.t) (row : Unknown)
    : Completion string string :=
  let sep := default "," (StringifyOptions.separator options) in
  let eol := if StringifyOptions.crlf options then CR +:+ LF else LF in
  let values :=
    match row with
    | JsArray vs => Normal vs
    | JsObject kv => pick (default [] (StringifyOptions.columns options)) kv
    | _ => Abrupt "not a row"
    end in
  match values with
  | Normal vs =>
      match fields vs with
      | Normal fs => Normal (join sep fs +:+ eol)
      | Abrupt e => Abrupt e
      end
  | Abrupt e => Abrupt e
  end.

Fixpoint lines (options : StringifyOptions.t) (data : list Unknown)
    : Completion string string :=
  match data with
  | [] => Normal EmptyString
  | row :: data' =>
      match line options row, lines options data' with
      | Normal l, Normal ls => Normal (l +:+ ls)
      | Abrupt e, _ => Abrupt e
      | _, Abrupt e => Abrupt e
      end
  end.

(** Modelled from the spec: the record encoder [stringify], which is not
    among the sources.  It follows the collaborator contract of the spec
    (rows and options in, a text out or an encoding error) and its examples:
    fields joined by the separator (a comma by default), each line closed by
    CR LF or LF, a keyed record laid out by [columns].  It fails on a nested
    value (illegal value type), on a record that lacks a column (inconsistent
    row shape) and on a value that is no row. *)
Definition stringify (data : list Unknown) (options : StringifyOptions.t)
    : Completion string string :=
  if StringifyOptions.headers options then
    lines options
      (array_of_strings (default [] (StringifyOptions.columns options)) :: data)
  else lines options data.

(** Modelled from the spec: a record encoder that fails with an encoding
    error on every batch; the spec lets the collaborator fail at the header
    call as well as on an item. *)
Definition refuse (data : list Unknown) (options : StringifyOptions.t)
    : Completion string string :=
  Abrupt "refused".

(** The inputs of the spec's examples. *)
Definition id_name (id : Z) (name : string) : Unknown :=
  JsObject [("id", JsNumber id); ("name", JsString name)].

Definition options_id_name : option CsvStringifyStreamOptions.t :=
  Some (CsvStringifyStreamOptions.mk None (Some ["id"; "name"]) (Some true)).

Definition options_rows_lf : option CsvStringifyStreamOptions.t :=
  Some (CsvStringifyStreamOptions.mk None (Some []) (Some false)).

Definition options_semicolon : option CsvStringifyStreamOptions.t :=
  Some (CsvStringifyStreamOptions.mk (Some ";") (Some ["a"; "b"]) None).

Definition options_none : option CsvStringifyStreamOptions.t := None.

Definition input_id_name : list Unknown := [id_name 1 "one"; id_name 2 "two"].

Definition input_rows : list Unknown :=
  [JsArray [JsNumber 1; JsString "one"]; JsArray [JsNumber 2; JsString "two"]].

Definition a_b (a b : Z) : Unknown :=
  JsObject [("a", JsNumber a); ("b", JsNumber b)].

(** A record without the column [b]: the sample encoder rejects it. *)
Definition only_a (a : Z) : Unknown := JsObject [("a", JsNumber a)].

End Sample.

(** * Properties *)

Section Properties.

Context {E : Type}.
Variable stringify : list Unknown -> StringifyOptions.t -> Completion E string.

Implicit Types (c : Closure.t) (s : Stream E) (chunk x : Unknown).
Implicit Types (input : list Unknown) (text : string) (e : E).
Implicit Types (options : option CsvStringifyStreamOptions.t).

Local Abbreviation header_call c :=
  (mkCall AtStart [array_of_strings (Closure.columns c)] (header_options c)).
Local Abbreviation row_call c :=
  (fun x => mkCall AtTransform [x] (row_options c)).

Local Arguments destructure : simpl never.

Local Ltac run_callback :=
  unfold start, transform, try_catch, bind, call_stringify,
    controller_enqueue, controller_error, ret; simpl.

(** ** The callbacks, case by case *)

Lemma columns_test c :
  bool_decide (0 < length (Closure.columns c)) = true <-> Closure.columns c <> [].
Proof.
  rewrite bool_decide_eq_true. destruct (Closure.columns c); simpl; split;
    intros; try lia; congruence.
Qed.

Lemma start_no_columns c s :
  Closure.columns c = [] -> start stringify c s = (Normal tt, s).
Proof. intros H. unfold start. rewrite H. reflexivity. Qed.

Lemma start_returns c text :
  Closure.columns c <> [] ->
  stringify [array_of_strings (Closure.columns c)] (header_options c)
    = Normal text ->
  start stringify c (fresh c)
    = (Normal tt,
       mkStream c Readable [mkChunk AtStart text] [header_call c]).
Proof.
  intros Hc Ht. apply columns_test in Hc. unfold start. rewrite Hc.
  run_callback. rewrite Ht. reflexivity.
Qed.

Lemma start_throws c e :
  Closure.columns c <> [] ->
  stringify [array_of_strings (Closure.columns c)] (header_options c)
    = Abrupt e ->
  start stringify c (fresh c)
    = (Normal tt,
       mkStream c (Errored (EncoderError e)) [] [header_call c]).
Proof.
  intros Hc Ht. apply columns_test in Hc. unfold start. rewrite Hc.
  run_callback. rewrite Ht. reflexivity.
Qed.

Lemma transform_returns c chunk s text :
  state s = Readable ->
  stringify [chunk] (row_options c) = Normal text ->
  transform stringify c chunk s
    = (Normal tt,
       mkStream (closure s) Readable
                (emitted s ++ [mkChunk AtTransform text])
                (calls s ++ [row_call c chunk])).
Proof. intros Hs Ht. run_callback. rewrite Ht, Hs. reflexivity. Qed.

Lemma transform_throws c chunk s e :
  state s = Readable ->
  stringify [chunk] (row_options c) = Abrupt e ->
  transform stringify c chunk s
    = (Normal tt,
       mkStream (closure s) (Errored (EncoderError e)) (emitted s)
                (calls s ++ [row_call c chunk])).
Proof. intros Hs Ht. run_callback. rewrite Ht, Hs. reflexivity. Qed.

(** Neither callback ever throws: the handler of its [catch] does not. *)
Lemma start_normal c s : fst (start stringify c s) = Normal tt.
Proof.
  unfold start. case_bool_decide; [|reflexivity]. run_callback.
  destruct (stringify _ _); simpl; destruct (state s); reflexivity.
Qed.

Lemma transform_normal c chunk s :
  fst (transform stringify c chunk s) = Normal tt.
Proof.
  run_callback. destruct (stringify _ _); simpl; destruct (state s);
    reflexivity.
Qed.

(** The constructor returns an instance. *)
Lemma constructor_returns options :
  constructor stringify options = Normal (new_stream stringify options).
Proof.
  unfold constructor, new_stream.
  pose proof (start_normal (destructure options)
                (fresh (destructure options))) as H.
  destruct (start _ _ _) as [[[]|t] s]; simpl in *; congruence.
Qed.


(** ** Writing chunks *)

Lemma write_errored chunk s reason :
  state s = Errored reason -> write stringify chunk s = s.
Proof. intros H. unfold write. rewrite H. reflexivity. Qed.

Lemma write_returns chunk s text :
  state s = Readable ->
  stringify [chunk] (row_options (closure s)) = Normal text ->
  write stringify chunk s
    = mkStream (closure s) Readable
               (emitted s ++ [mkChunk AtTransform text])
               (calls s ++ [row_call (closure s) chunk]).
Proof.
  intros Hs Ht. unfold write. rewrite Hs.
  rewrite (transform_returns _ _ _ _ Hs Ht). reflexivity.
Qed.

Lemma write_throws chunk s e :
  state s = Readable ->
  stringify [chunk] (row_options (closure s)) = Abrupt e ->
  write stringify chunk s
    = mkStream (closure s) (Errored (EncoderError e)) (emitted s)
               (calls s ++ [row_call (closure s) chunk]).
Proof.
  intros Hs Ht. unfold write. rewrite Hs.
  rewrite (transform_throws _ _ _ _ Hs Ht). reflexivity.
Qed.

Lemma pipe_cons x input s :
  pipe stringify (x :: input) s = pipe stringify input (write stringify x s).
Proof. reflexivity. Qed.

Lemma pipe_app input1 input2 s :
  pipe stringify (input1 ++ input2) s
    = pipe stringify input2 (pipe stringify input1 s).
Proof. unfold pipe. apply foldl_app. Qed.

Lemma pipe_errored input s reason :
  state s = Errored reason -> pipe stringify input s = s.
Proof.
  intros H. induction input as [|x input IH]; [reflexivity|].
  rewrite pipe_cons, (write_errored _ _ _ H). exact IH.
Qed.

(** An input sequence written to a readable stream: the accepted prefix is
    emitted in order, the first rejection errors the stream, and the encoder
    has been called on the accepted prefix and on the rejected item. *)
Lemma pipe_readable input s :
  state s = Readable ->
  pipe stringify input s
    = mkStream (closure s)
        (match rejected stringify (closure s) input with
         | None => Readable
         | Some e => Errored (EncoderError e)
         end)
        (emitted s ++ (mkChunk AtTransform <$> accepted stringify (closure s) input))
        (calls s ++ (row_call (closure s)
                       <$> take (S (length (accepted stringify (closure s) input)))
                                input)).
Proof.
  revert s. induction input as [|x input IH]; intros s Hs.
  - simpl. rewrite !app_nil_r. destruct s; simpl in *; congruence.
  - rewrite pipe_cons. simpl accepted. simpl rejected.
    destruct (stringify [x] (row_options (closure s))) as [text|e] eqn:Hx.
    + rewrite (write_returns _ _ _ Hs Hx). rewrite IH by reflexivity. simpl.
      rewrite <- !app_assoc. reflexivity.
    + rewrite (write_throws _ _ _ Hs Hx).
      rewrite (pipe_errored _ _ (EncoderError e)) by reflexivity.
      simpl. rewrite app_nil_r. reflexivity.
Qed.

(** ** The instance the constructor returns *)

Lemma new_stream_no_columns options :
  Closure.columns (destructure options) = [] ->
  new_stream stringify options = fresh (destructure options).
Proof. intros H. unfold new_stream. rewrite start_no_columns; done. Qed.

Lemma new_stream_header options text :
  let c := destructure options in
  Closure.columns c <> [] ->
  stringify [array_of_strings (Closure.columns c)] (header_options c)
    = Normal text ->
  new_stream stringify options
    = mkStream c Readable [mkChunk AtStart text] [header_call c].
Proof. intros c Hc Ht. unfold new_stream. fold c. rewrite (start_returns c text); done. Qed.

Lemma new_stream_failed options e :
  let c := destructure options in
  Closure.columns c <> [] ->
  stringify [array_of_strings (Closure.columns c)] (header_options c)
    = Abrupt e ->
  new_stream stringify options
    = mkStream c (Errored (EncoderError e)) [] [header_call c].
Proof. intros c Hc Ht. unfold new_stream. fold c. rewrite (start_throws c e); done. Qed.

(** The three shapes of a new instance. *)
Lemma new_stream_cases options :
  let c := destructure options in
  (Closure.columns c = [] /\ new_stream stringify options = fresh c)
  \/ (exists text,
        Closure.columns c <> []
        /\ stringify [array_of_strings (Closure.columns c)] (header_options c)
             = Normal text
        /\ new_stream stringify options
             = mkStream c Readable [mkChunk AtStart text] [header_call c])
  \/ (exists e,
        Closure.columns c <> []
        /\ stringify [array_of_strings (Closure.columns c)] (header_options c)
             = Abrupt e
        /\ new_stream stringify options
             = mkStream c (Errored (EncoderError e)) [] [header_call c]).
Proof.
  intros c. destruct (Closure.columns c) as [|col cols] eqn:Hc.
  - left. split; [done|]. by apply new_stream_no_columns.
  - right. rewrite <- Hc.
    assert (Hne : Closure.columns c <> []) by (rewrite Hc; discriminate).
    destruct (stringify [array_of_strings (Closure.columns c)]
                (header_options c)) as [text|e] eqn:Ht.
    + left. exists text. split_and!; [done..|]. by apply new_stream_header.
    + right. exists e. split_and!; [done..|]. by apply new_stream_failed.
Qed.

(** ** Frame: what the callbacks leave alone *)

Lemma closure_write chunk s : closure (write stringify chunk s) = closure s.
Proof.
  unfold write. destruct (state s) eqn:Hs; [|reflexivity].
  destruct (stringify [chunk] (row_options (closure s))) as [text|e] eqn:Hx.
  - rewrite (transform_returns _ _ _ _ Hs Hx). reflexivity.
  - rewrite (transform_throws _ _ _ _ Hs Hx). reflexivity.
Qed.

Lemma closure_pipe input s : closure (pipe stringify input s) = closure s.
Proof.
  revert s. induction input as [|x input IH]; intros s; [reflexivity|].
  rewrite pipe_cons, IH. apply closure_write.
Qed.

Lemma closure_new_stream options :
  closure (new_stream stringify options) = destructure options.
Proof.
  destruct (new_stream_cases options)
    as [[_ ->]|[(text & _ & _ & ->)|(e & _ & _ & ->)]]; reflexivity.
Qed.

Lemma closure_run options input :
  closure (run stringify options input) = destructure options.
Proof. unfold run. rewrite closure_pipe. apply closure_new_stream. Qed.


(** ** A whole lifetime *)

Local Abbreviation row_chunks c input :=
  (mkChunk AtTransform <$> accepted stringify c input).
Local Abbreviation row_calls c input :=
  (row_call c <$> take (S (length (accepted stringify c input))) input).
Local Abbreviation outcome c input :=
  (match rejected stringify c input with
   | None => Readable
   | Some e => Errored (EncoderError e)
   end).

Lemma run_cases options input :
  let c := destructure options in
  let s := run stringify options input in
  (Closure.columns c = []
   /\ s = mkStream c (outcome c input) (row_chunks c input) (row_calls c input))
  \/ (exists text,
        Closure.columns c <> []
        /\ stringify [array_of_strings (Closure.columns c)] (header_options c)
             = Normal text
        /\ s = mkStream c (outcome c input)
                 (mkChunk AtStart text :: row_chunks c input)
                 (header_call c :: row_calls c input))
  \/ (exists e,
        Closure.columns c <> []
        /\ stringify [array_of_strings (Closure.columns c)] (header_options c)
             = Abrupt e
        /\ s = mkStream c (Errored (EncoderError e)) [] [header_call c]).
Proof.
  intros c s. subst s. unfold run.
  destruct (new_stream_cases options)
    as [[Hc ->]|[(text & Hc & Ht & ->)|(e & Hc & Ht & ->)]]; fold c in Hc |- *.
  - left. split; [done|]. by rewrite pipe_readable.
  - right; left. exists text. split_and!; [done..|]. by rewrite pipe_readable.
  - right; right. exists e. split_and!; [done..|].
    by rewrite (pipe_errored _ _ (EncoderError e)).
Qed.

(** ** Header chunks and data chunks *)

Lemma filter_header_rows (texts : list string) :
  filter (fun ch => is_header ch = true) (mkChunk AtTransform <$> texts) = [].
Proof. induction texts as [|t texts IH]; [reflexivity|]. simpl. exact IH. Qed.

Lemma filter_data_rows (texts : list string) :
  filter (fun ch => is_data ch = true) (mkChunk AtTransform <$> texts)
    = mkChunk AtTransform <$> texts.
Proof.
  induction texts as [|t texts IH]; [reflexivity|].
  rewrite fmap_cons, filter_cons_True by reflexivity. by rewrite IH.
Qed.

Lemma chunk_text_rows (texts : list string) :
  chunk_text <$> (mkChunk AtTransform <$> texts) = texts.
Proof. rewrite <- list_fmap_compose. apply list_fmap_id. Qed.

Lemma rows_at_transform (texts : list string) :
  Forall (fun ch => chunk_site ch = AtTransform) (mkChunk AtTransform <$> texts).
Proof. apply Forall_fmap, Forall_forall. reflexivity. Qed.

Lemma row_calls_at_transform c (xs : list Unknown) :
  Forall (fun k => call_site k = AtTransform) (row_call c <$> xs).
Proof. apply Forall_fmap, Forall_forall. reflexivity. Qed.

(** ** The accepted prefix *)

Lemma accepted_length c input :
  length (accepted stringify c input) <= length input.
Proof.
  induction input as [|x input IH]; simpl; [lia|].
  destruct (stringify _ _); simpl; lia.
Qed.

Lemma accepted_lookup c input k text :
  accepted stringify c input !! k = Some text ->
  exists x, input !! k = Some x /\ stringify [x] (row_options c) = Normal text.
Proof.
  revert k. induction input as [|x input IH]; intros k; simpl; [done|].
  destruct (stringify [x] (row_options c)) as [t|e] eqn:Hx; [|done].
  destruct k as [|k]; simpl.
  - intros [= ->]. by exists x.
  - apply IH.
Qed.

Lemma accepted_all c input :
  Forall (fun x => row_returns stringify c x = true) input ->
  length (accepted stringify c input) = length input
  /\ rejected stringify c input = None.
Proof.
  unfold row_returns. induction 1 as [|x input Hx _ [IHl IHr]]; simpl; [done|].
  destruct (stringify [x] (row_options c)); simpl in *; [|done].
  split; [lia|done].
Qed.

Lemma accepted_until c before x after e :
  Forall (fun x => row_returns stringify c x = true) before ->
  stringify [x] (row_options c) = Abrupt e ->
  accepted stringify c (before ++ x :: after) = accepted stringify c before
  /\ rejected stringify c (before ++ x :: after) = Some e.
Proof.
  unfold row_returns. intros Hb Hx.
  induction Hb as [|y before Hy _ [IHa IHr]]; simpl.
  - by rewrite Hx.
  - destruct (stringify [y] (row_options c)); simpl in *; [|done].
    by rewrite IHa, IHr.
Qed.


Lemma header_chunks_pipe input s :
  header_chunks (pipe stringify input s) = header_chunks s.
Proof.
  destruct (state s) as [|reason] eqn:Hs.
  - rewrite pipe_readable by done. unfold header_chunks. simpl.
    by rewrite filter_app, filter_header_rows, app_nil_r.
  - by rewrite (pipe_errored _ _ reason).
Qed.

Lemma header_chunks_length options input :
  length (header_chunks (run stringify options input)) <= 1.
Proof.
  destruct (run_cases options input)
    as [[Hc ->]|[(text & Hc & Ht & ->)|(e & Hc & Ht & ->)]];
    unfold header_chunks; simpl;
    rewrite ?filter_cons_True, ?filter_header_rows by reflexivity; simpl; lia.
Qed.

(** ** The header chunk *)

(** C1 (amended).  For every encoder, configuration and input sequence, over
    the whole lifetime of an instance: at most one header chunk is produced;
    a header chunk is produced if and only if [columns] is non-empty and the
    header call of the encoder returns; when produced it is the first chunk
    emitted and every chunk after it is a data chunk; and the header chunks
    of an instance are those it had when the constructor returned, so that
    writing chunks neither adds nor removes a header. *)
Theorem header_chunk_at_most_once options input :
  let c := destructure options in
  let s := run stringify options input in
  length (header_chunks s) <= 1
  /\ (header_chunks s <> []
      <-> Closure.columns c <> [] /\ header_returns stringify c = true)
  /\ (forall h, h ∈ header_chunks s ->
        exists rest,
          emitted s = mkChunk AtStart h :: rest
          /\ Forall (fun ch => chunk_site ch = AtTransform) rest)
  /\ header_chunks s = header_chunks (new_stream stringify options).
Proof.
  intros c s. subst c s.
  split_and!; [apply header_chunks_length| | |apply header_chunks_pipe].
  all: destruct (run_cases options input)
         as [[Hc Hs]|[(text & Hc & Ht & Hs)|(e & Hc & Ht & Hs)]];
       rewrite Hs; unfold header_chunks, header_returns;
       try rewrite Ht; simpl;
       rewrite ?filter_cons_True, ?filter_header_rows by reflexivity; simpl.
  - split; [done|]. by intros [? _].
  - split; [done|discriminate].
  - split; [done|]. by intros [_ ?].
  - intros h Hh. by apply elem_of_nil in Hh.
  - intros h Hh. apply list_elem_of_singleton in Hh as ->.
    eexists. split; [reflexivity|apply rows_at_transform].
  - intros h Hh. by apply elem_of_nil in Hh.
Qed.

(** ** Chunk count *)

(** C2.  When no call of the encoder fails during the lifetime (the header
    call, if there is one, and the call for each of the N items): N + 1
    chunks are emitted if [columns] is non-empty, also for N = 0, and N
    chunks if [columns] is empty. *)
Theorem chunk_count options input :
  let c := destructure options in
  (Closure.columns c <> [] -> header_returns stringify c = true) ->
  Forall (fun x => row_returns stringify c x = true) input ->
  length (output (run stringify options input))
    = if bool_decide (Closure.columns c = []) then length input
      else S (length input).
Proof.
  intros c Hh Hrows. subst c.
  destruct (accepted_all _ input Hrows) as [Hlen _].
  unfold output. rewrite length_fmap.
  destruct (run_cases options input)
    as [[Hc ->]|[(text & Hc & Ht & ->)|(e & Hc & Ht & ->)]]; simpl.
  - rewrite bool_decide_eq_true_2 by done. by rewrite length_fmap.
  - rewrite bool_decide_eq_false_2 by done. by rewrite length_fmap, Hlen.
  - specialize (Hh Hc). unfold header_returns in Hh. by rewrite Ht in Hh.
Qed.

(** ** The header call *)

(** C3.  With a non-empty [columns], the constructor (through [start])
    invokes the encoder exactly once, on the one-row batch [[columns]] with
    the options [{ separator, headers: false, crlf }] and no [columns]
    property; no later call of the lifetime comes from [start]; and the text
    the encoder returns is the first chunk of the output. *)
Theorem header_call_once options input :
  let c := destructure options in
  let call :=
    mkCall AtStart [JsArray (JsString <$> Closure.columns c)]
      (StringifyOptions.mk (Closure.separator c) false None (Closure.crlf c)) in
  Closure.columns c <> [] ->
  calls (new_stream stringify options) = [call]
  /\ (exists rest,
        calls (run stringify options input) = call :: rest
        /\ Forall (fun k => call_site k = AtTransform) rest)
  /\ (forall text,
        stringify (call_data call) (call_options call) = Normal text ->
        output (new_stream stringify options) = [text]
        /\ exists rest, output (run stringify options input) = text :: rest).
Proof.
  intros c call Hc. subst c call. split_and!.
  - destruct (new_stream_cases options)
      as [[Hc' _]|[(text & _ & _ & ->)|(e & _ & _ & ->)]]; done.
  - destruct (run_cases options input)
      as [[Hc' _]|[(text & _ & _ & ->)|(e & _ & _ & ->)]]; [done|..];
      eexists; (split; [reflexivity|]).
    + apply row_calls_at_transform.
    + constructor.
  - intros text Htext. split.
    + destruct (new_stream_cases options)
        as [[Hc' _]|[(text' & _ & Ht & ->)|(e & _ & Ht & ->)]]; [done|..].
      * assert (Heq : @Normal E string text' = Normal text)
          by (rewrite <- Htext, <- Ht; reflexivity).
        by simplify_eq.
      * assert (Heq : @Abrupt E string e = Normal text)
          by (rewrite <- Htext, <- Ht; reflexivity).
        discriminate.
    + destruct (run_cases options input)
        as [[Hc' _]|[(text' & _ & Ht & ->)|(e & _ & Ht & ->)]]; [done|..].
      * assert (Heq : @Normal E string text' = Normal text)
          by (rewrite <- Htext, <- Ht; reflexivity).
        simplify_eq. unfold output. simpl. by eexists.
      * assert (Heq : @Abrupt E string e = Normal text)
          by (rewrite <- Htext, <- Ht; reflexivity).
        discriminate.
Qed.


(** ** The call for an item *)

Lemma run_snoc options before x :
  run stringify options (before ++ [x])
    = write stringify x (run stringify options before).
Proof. unfold run. by rewrite pipe_app. Qed.

(** C4.  An item that reaches the transform (the stream is still readable
    when it is written) is wrapped into a one-row batch and handed to the
    encoder with the options [{ separator, headers: false, columns, crlf }],
    in exactly one call; [columns] is part of these options also when it is
    empty; and the text the encoder returns is emitted as exactly one chunk
    for this item. *)
Theorem row_call_per_item options before x :
  let c := destructure options in
  let opts :=
    StringifyOptions.mk (Closure.separator c) false
                        (Some (Closure.columns c)) (Closure.crlf c) in
  let s := run stringify options before in
  let s' := run stringify options (before ++ [x]) in
  state s = Readable ->
  calls s' = calls s ++ [mkCall AtTransform [x] opts]
  /\ (Closure.columns c = [] -> StringifyOptions.columns opts = Some [])
  /\ (forall text,
        stringify [x] opts = Normal text ->
        emitted s' = emitted s ++ [mkChunk AtTransform text]).
Proof.
  intros c opts s s' Hs. subst s'. rewrite run_snoc. fold s.
  assert (Hc : closure s = c) by apply closure_run.
  split_and!.
  - destruct (stringify [x] (row_options (closure s))) as [text|e] eqn:Hx.
    + rewrite (write_returns _ _ _ Hs Hx). simpl. by rewrite Hc.
    + rewrite (write_throws _ _ _ Hs Hx). simpl. by rewrite Hc.
  - intros H. exact (f_equal Some H).
  - intros text Hx. rewrite (write_returns _ s text Hs); [done|].
    by rewrite Hc.
Qed.

(** ** Failure of the encoder *)

(** A callback run on an errored stream would emit nothing either. *)
Lemma transform_on_errored c chunk s reason :
  state s = Errored reason ->
  emitted (snd (transform stringify c chunk s)) = emitted s
  /\ state (snd (transform stringify c chunk s)) = Errored reason.
Proof.
  intros Hs. run_callback.
  destruct (stringify [chunk] (row_options c)); simpl; rewrite Hs; simpl;
    rewrite ?Hs; done.
Qed.

(** C5.  If the encoder throws [e] on item [k] (the items before it and
    the header call, if any, having returned), the stream ends errored with
    reason [e] itself; its chunks are exactly those emitted before item [k]
    was written, whatever follows in the input: [k - 1] of them when
    [columns] is empty and [k] when a header was emitted.  If the encoder
    throws [e] at the header call, the stream is errored with reason [e] and
    no chunk is ever emitted. *)
Theorem encoder_failure options before x after input e :
  let c := destructure options in
  ((Closure.columns c <> [] -> header_returns stringify c = true) ->
   Forall (fun y => row_returns stringify c y = true) before ->
   stringify [x] (row_options c) = Abrupt e ->
   let s := run stringify options (before ++ x :: after) in
   state s = Errored (EncoderError e)
   /\ emitted s = emitted (run stringify options before)
   /\ length (output s)
        = if bool_decide (Closure.columns c = []) then length before
          else S (length before))
  /\ (Closure.columns c <> [] ->
      stringify [array_of_strings (Closure.columns c)] (header_options c)
        = Abrupt e ->
      let s := run stringify options input in
      state s = Errored (EncoderError e) /\ output s = []).
Proof.
  intros c. subst c. split.
  - intros Hh Hb Hx s. subst s.
    destruct (accepted_until _ before x after e Hb Hx) as [Ha Hr].
    destruct (accepted_all _ before Hb) as [Hlen _].
    unfold output. rewrite length_fmap.
    destruct (run_cases options (before ++ x :: after))
      as [[Hc ->]|[(text & Hc & Ht & ->)|(e' & Hc & Ht & ->)]];
    destruct (run_cases options before)
      as [[Hc' ->]|[(text' & Hc' & Ht' & ->)|(e'' & Hc' & Ht' & ->)]];
    try done;
    first [rewrite bool_decide_eq_true_2 by done
          |rewrite bool_decide_eq_false_2 by done];
    simpl; rewrite ?Ha, ?Hr, ?length_fmap, ?Hlen.
    + done.
    + rewrite Ht in Ht'. by simplify_eq.
    + rewrite Ht in Ht'. discriminate.
    + rewrite Ht in Ht'. discriminate.
    + specialize (Hh Hc). unfold header_returns in Hh. by rewrite Ht in Hh.
  - intros Hc Hh s. subst s.
    destruct (run_cases options input)
      as [[Hc' _]|[(text & _ & Ht & ->)|(e' & _ & Ht & ->)]];
      [done|rewrite Hh in Ht; discriminate|].
    rewrite Hh in Ht. by simplify_eq.
Qed.

(** ** Order of the data chunks *)

Lemma data_chunks_run options input :
  data_chunks (run stringify options input)
    = accepted stringify (destructure options) input
  \/ data_chunks (run stringify options input) = [].
Proof.
  destruct (run_cases options input)
    as [[Hc ->]|[(text & Hc & Ht & ->)|(e' & Hc & Ht & ->)]];
    unfold data_chunks; simpl.
  - left. by rewrite filter_data_rows, chunk_text_rows.
  - left. rewrite filter_cons_False by (by intros ?).
    by rewrite filter_data_rows, chunk_text_rows.
  - by right.
Qed.

Lemma data_chunk_lookup options input k text :
  data_chunks (run stringify options input) !! k = Some text ->
  exists x,
    input !! k = Some x
    /\ stringify [x] (row_options (destructure options)) = Normal text.
Proof.
  destruct (data_chunks_run options input) as [-> | ->]; [|done].
  apply accepted_lookup.
Qed.

Lemma output_split s :
  (forall h rest, emitted s = h :: rest ->
     Forall (fun ch => chunk_site ch = AtTransform) rest) ->
  output s = header_chunks s ++ data_chunks s.
Proof.
  unfold output, header_chunks, data_chunks.
  destruct (emitted s) as [|h rest]; [done|]. intros H.
  specialize (H h rest eq_refl).
  assert (Hrest :
    filter (fun ch => is_header ch = true) rest = []
    /\ filter (fun ch => is_data ch = true) rest = rest).
  { clear -H. induction H as [|ch rest Hch _ [IH1 IH2]]; [done|].
    split.
    - rewrite filter_cons_False; [done|].
      unfold is_header. rewrite Hch. by intros ?.
    - rewrite filter_cons_True, IH2; [done|].
      unfold is_data. by rewrite Hch. }
  destruct Hrest as [Hh Hd]. destruct h as [[] text].
  - rewrite filter_cons_True by done.
    rewrite (filter_cons_False _ (mkChunk AtStart text)) by (by intros ?).
    by rewrite Hh, Hd.
  - rewrite filter_cons_False by (by intros ?).
    rewrite (filter_cons_True _ (mkChunk AtTransform text)) by done.
    by rewrite Hh, Hd.
Qed.

(** C6.  The output is the header chunk, if any, followed by the data
    chunks, and for every valid index [k] the [k]-th data chunk is the text
    the encoder returned for the [k]-th input item; when no call of the
    encoder fails, every item has its data chunk. *)
Theorem data_chunks_in_order options input :
  let c := destructure options in
  let s := run stringify options input in
  output s = header_chunks s ++ data_chunks s
  /\ length (header_chunks s) <= 1
  /\ length (data_chunks s) <= length input
  /\ (forall k text,
        data_chunks s !! k = Some text ->
        exists x,
          input !! k = Some x
          /\ stringify [x] (row_options c) = Normal text)
  /\ ((Closure.columns c <> [] -> header_returns stringify c = true) ->
      Forall (fun x => row_returns stringify c x = true) input ->
      length (data_chunks s) = length input).
Proof.
  intros c s. subst c s. split_and!.
  - apply output_split. intros h rest.
    destruct (run_cases options input)
      as [[Hc ->]|[(text & Hc & Ht & ->)|(e' & Hc & Ht & ->)]]; simpl.
    + intros Heq.
      pose proof (rows_at_transform
        (accepted stringify (destructure options) input)) as Hall.
      rewrite Heq in Hall. by apply Forall_cons_1 in Hall as [_ ?].
    + intros [= <- <-]. apply rows_at_transform.
    + done.
  - apply header_chunks_length.
  - destruct (data_chunks_run options input) as [-> | ->].
    + apply accepted_length.
    + simpl. lia.
  - intros k text. apply data_chunk_lookup.
  - intros Hh Hrows. destruct (accepted_all _ input Hrows) as [Hlen _].
    destruct (run_cases options input)
      as [[Hc ->]|[(text & Hc & Ht & ->)|(e' & Hc & Ht & ->)]];
      unfold data_chunks; simpl.
    + by rewrite filter_data_rows, chunk_text_rows.
    + rewrite filter_cons_False by (by intros ?).
      by rewrite filter_data_rows, chunk_text_rows.
    + specialize (Hh Hc). unfold header_returns in Hh. by rewrite Ht in Hh.
Qed.


(** ** Instances do not interfere *)

Lemma writes_to_other id id' chunk ops :
  id' <> id -> writes_to id (OpWrite id' chunk :: ops) = writes_to id ops.
Proof. intros H. simpl. by rewrite decide_False. Qed.

Lemma writes_to_same id chunk ops :
  writes_to id (OpWrite id chunk :: ops) = chunk :: writes_to id ops.
Proof. simpl. by rewrite decide_True. Qed.

(** Whatever a program does to the other instances of a realm, an instance
    ends where its own chunks alone take it. *)
Lemma exec_lookup ops (r : Realm E) id s :
  r !! id = Some s ->
  exec stringify ops r !! id
    = Some (pipe stringify (writes_to id ops) s).
Proof.
  revert r s. induction ops as [|op ops IH]; intros r s Hid; [done|].
  change (exec stringify (op :: ops) r)
    with (exec stringify ops (step stringify op r)).
  destruct op as [options|id' chunk].
  - simpl writes_to. apply IH. simpl. by apply lookup_app_l_Some.
  - simpl step. destruct (decide (id' = id)) as [->|Hne].
    + rewrite Hid, writes_to_same, pipe_cons. apply IH.
      apply list_lookup_insert_eq. by eapply lookup_lt_Some.
    + rewrite (writes_to_other _ _ _ _ Hne).
      destruct (r !! id') as [s'|]; apply IH; [|done].
      by rewrite list_lookup_insert_ne.
Qed.

(** A constructed instance sits at the end of the realm. *)
Lemma step_new options (r : Realm E) :
  step stringify (OpNew options) r !! length r
    = Some (new_stream stringify options).
Proof. simpl. by rewrite lookup_app_r, Nat.sub_diag by lia. Qed.

(** The output of a lifetime is [expected_output]: it is determined by the
    captured bindings, the input sequence and the encoder. *)
Lemma output_run options input :
  output (run stringify options input)
    = expected_output stringify (destructure options) input.
Proof.
  unfold expected_output, output.
  destruct (run_cases options input)
    as [[Hc ->]|[(text & Hc & Ht & ->)|(e & Hc & Ht & ->)]];
    first [rewrite bool_decide_eq_true_2 by done
          |rewrite bool_decide_eq_false_2 by done];
    try rewrite Ht; simpl; by rewrite ?chunk_text_rows.
Qed.

(** An instance is built from the destructured bindings only: option
    objects that give the same [separator], [columns] and [crlf] give the
    same instance. *)
Lemma new_stream_destructure options1 options2 :
  destructure options1 = destructure options2 ->
  new_stream stringify options1 = new_stream stringify options2.
Proof. intros H. unfold new_stream. by rewrite H. Qed.

(** C7.  Two instances whose configurations are identical (the same
    [separator], [columns] and [crlf] after the defaults, whatever the
    option objects they were constructed from) and that are fed the same
    input sequence emit the same chunks, wherever they sit among other
    instances and however their writes are interleaved with each other and
    with the use of other instances.  That common output is
    [expected_output]: the header text and the texts of the accepted items,
    which mention only the configuration, the input and the encoder. *)
Theorem same_configuration_same_output ops (r : Realm E) i j
    options1 options2 :
  destructure options1 = destructure options2 ->
  r !! i = Some (new_stream stringify options1) ->
  r !! j = Some (new_stream stringify options2) ->
  writes_to i ops = writes_to j ops ->
  exists si sj,
    exec stringify ops r !! i = Some si
    /\ exec stringify ops r !! j = Some sj
    /\ output si = output sj
    /\ output si
         = expected_output stringify (destructure options1) (writes_to i ops)
    /\ state si = state sj
    /\ si = run stringify options1 (writes_to i ops).
Proof.
  intros Hconf Hi Hj Hw.
  exists (run stringify options1 (writes_to i ops)),
         (run stringify options2 (writes_to j ops)).
  assert (Hrun : run stringify options1 (writes_to i ops)
                 = run stringify options2 (writes_to j ops)).
  { unfold run. by rewrite Hw, (new_stream_destructure _ _ Hconf). }
  split_and!.
  - by apply exec_lookup.
  - by apply exec_lookup.
  - by rewrite Hrun.
  - apply output_run.
  - by rewrite Hrun.
  - done.
Qed.

(** ** The configuration is fixed *)

Lemma closure_start c s : closure (snd (start stringify c s)) = closure s.
Proof.
  unfold start. case_bool_decide; [|done]. run_callback.
  destruct (stringify _ _); simpl; destruct (state s); done.
Qed.

Lemma closure_transform c chunk s :
  closure (snd (transform stringify c chunk s)) = closure s.
Proof.
  run_callback. destruct (stringify _ _); simpl; destruct (state s); done.
Qed.

Lemma calls_given options input :
  Forall (given (destructure options)) (calls (run stringify options input)).
Proof.
  assert (Hrows : forall xs : list Unknown,
    Forall (given (destructure options))
           (row_call (destructure options) <$> xs)).
  { intros xs. apply Forall_fmap, Forall_forall. intros x _.
    unfold given. simpl. split_and!; try done. by left. }
  assert (Hhead : given (destructure options)
                    (header_call (destructure options))).
  { unfold given. simpl. split_and!; try done. by right. }
  destruct (run_cases options input)
    as [[Hc ->]|[(text & Hc & Ht & ->)|(e' & Hc & Ht & ->)]]; simpl.
  - apply Hrows.
  - constructor; [apply Hhead|apply Hrows].
  - constructor; [apply Hhead|constructor].
Qed.

(** C8.  The closure of an instance is the configuration captured by the
    constructor at every point of its lifetime; neither [start] nor the
    processing of an item changes it; and every call of the encoder is given
    the captured [separator] and [crlf], and the captured [columns]: as the
    [columns] option in a per-item call, as the row of the header call. *)
Theorem configuration_fixed options input :
  let c := destructure options in
  closure (run stringify options input) = c
  /\ (forall c0 s0, closure (snd (start stringify c0 s0)) = closure s0)
  /\ (forall c0 chunk s0,
        closure (snd (transform stringify c0 chunk s0)) = closure s0)
  /\ (forall chunk s0, closure (write stringify chunk s0) = closure s0)
  /\ Forall
       (fun k =>
          StringifyOptions.separator (call_options k) = Closure.separator c
          /\ StringifyOptions.crlf (call_options k) = Closure.crlf c
          /\ (StringifyOptions.columns (call_options k)
                = Some (Closure.columns c)
              \/ call_data k = [array_of_strings (Closure.columns c)]))
       (calls (run stringify options input)).
Proof.
  intros c. subst c. split_and!.
  - apply closure_run.
  - apply closure_start.
  - apply closure_transform.
  - apply closure_write.
  - eapply Forall_impl; [apply calls_given|].
    intros k (Hsep & Hcrlf & _ & [[_ Hcol]|(_ & _ & Hdata)]); auto.
Qed.


(** ** Omitted options *)

Lemma header_chunks_no_columns options input :
  Closure.columns (destructure options) = [] ->
  header_chunks (run stringify options input) = [].
Proof.
  intros Hc. destruct (run_cases options input)
    as [[_ ->]|[(text & Hc' & _ & _)|(e' & Hc' & _ & _)]]; [|done..].
  unfold header_chunks. simpl. by rewrite filter_header_rows.
Qed.

Lemma calls_no_columns options input :
  Closure.columns (destructure options) = [] ->
  Forall (fun k => call_site k = AtTransform
                   /\ StringifyOptions.columns (call_options k) = Some [])
         (calls (run stringify options input)).
Proof.
  intros Hc. destruct (run_cases options input)
    as [[_ ->]|[(text & Hc' & _ & _)|(e' & Hc' & _ & _)]]; [|done..].
  apply Forall_fmap, Forall_forall. intros x _.
  split; [done|]. exact (f_equal Some Hc).
Qed.

(** C9.  Without an options object, and with one that omits [columns], the
    instance behaves exactly as with [columns: []]: no header chunk, and
    every call of the encoder is a per-item call given [columns] equal to the
    empty array.  With [crlf] omitted every call is given [crlf = true]; with
    [separator] omitted every call is given an undefined separator. *)
Theorem omitted_options input separator columns crlf :
  let mk := CsvStringifyStreamOptions.mk in
  let per_item_empty_columns (k : Call) :=
    call_site k = AtTransform
    /\ StringifyOptions.columns (call_options k) = Some [] in
  destructure None = Closure.mk None [] true
  /\ run stringify None input
       = run stringify (Some (mk None (Some []) (Some true))) input
  /\ run stringify (Some (mk separator None crlf)) input
       = run stringify (Some (mk separator (Some []) crlf)) input
  /\ header_chunks (run stringify None input) = []
  /\ header_chunks (run stringify (Some (mk separator None crlf)) input) = []
  /\ Forall per_item_empty_columns (calls (run stringify None input))
  /\ Forall per_item_empty_columns
       (calls (run stringify (Some (mk separator None crlf)) input))
  /\ Forall (fun k => StringifyOptions.crlf (call_options k) = true)
       (calls (run stringify None input)
        ++ calls (run stringify (Some (mk separator columns None)) input))
  /\ Forall (fun k => StringifyOptions.separator (call_options k) = None)
       (calls (run stringify None input)
        ++ calls (run stringify (Some (mk None columns crlf)) input)).
Proof.
  intros mk per_item. subst mk per_item. split_and!; try reflexivity.
  - by apply header_chunks_no_columns.
  - by apply header_chunks_no_columns.
  - by apply calls_no_columns.
  - by apply calls_no_columns.
  - apply Forall_app; split;
      (eapply Forall_impl; [apply calls_given|]); by intros k (_ & -> & _).
  - apply Forall_app; split;
      (eapply Forall_impl; [apply calls_given|]); by intros k (-> & _).
Qed.

(** ** A data chunk depends on its item only *)

Lemma accepted_lookup_iff c input k text :
  accepted stringify c input !! k = Some text
  <-> Forall (fun y => row_returns stringify c y = true) (take k input)
      /\ exists x,
           input !! k = Some x
           /\ stringify [x] (row_options c) = Normal text.
Proof.
  unfold row_returns. revert k.
  induction input as [|y input IH]; intros k.
  - simpl. split; [done|]. by intros (_ & x & ? & _).
  - simpl accepted.
    destruct (stringify [y] (row_options c)) as [t|e] eqn:Hy;
      destruct k as [|k]; simpl.
    + split.
      * intros [= ->]. split; [constructor|]. by exists y.
      * intros (_ & x & [= <-] & Hx). rewrite Hy in Hx. by simplify_eq.
    + rewrite IH, Forall_cons, Hy. simpl.
      split; [intros [? ?]; by split|intros [[_ ?] ?]; by split].
    + split; [done|]. intros (_ & x & [= <-] & Hx). rewrite Hy in Hx.
      discriminate.
    + split; [done|]. rewrite Forall_cons, Hy. simpl. by intros [[? _] _].
Qed.

(** When an item has a data chunk, and which. *)
Lemma data_chunk_lookup_iff options input k text :
  data_chunks (run stringify options input) !! k = Some text
  <-> (Closure.columns (destructure options) <> [] ->
       header_returns stringify (destructure options) = true)
      /\ Forall (fun y => row_returns stringify (destructure options) y = true)
                (take k input)
      /\ exists x,
           input !! k = Some x
           /\ stringify [x] (row_options (destructure options)) = Normal text.
Proof.
  unfold header_returns.
  destruct (run_cases options input)
    as [[Hc ->]|[(t & Hc & Ht & ->)|(e' & Hc & Ht & ->)]];
    unfold data_chunks; try rewrite Ht; cbn [emitted returns].
  - rewrite filter_data_rows, chunk_text_rows, accepted_lookup_iff.
    split; [by intros [? ?]|by intros (_ & ? & ?)].
  - rewrite filter_cons_False by (by intros ?).
    rewrite filter_data_rows, chunk_text_rows, accepted_lookup_iff.
    split; [by intros [? ?]|by intros (_ & ? & ?)].
  - split; [done|]. intros [H _]. by specialize (H Hc).
Qed.

(** C10 (amended).  The item at position [k] has a data chunk exactly when
    the header call (if any) and the calls for the items before it
    returned and the encoder returns on the item itself, and the chunk is
    then the text the encoder returns for that item alone under the captured
    configuration.  Hence, as long as the encoder returns on every item that
    precedes it, the same item at position [k1] of one input and [k2] of
    another gets the same chunk (or none, in both), whatever the other items
    are; an earlier item on which the encoder throws leaves it without a
    chunk.  The closure, the only thing a per-item call reads besides its
    item, is the same after any input. *)
Theorem data_chunk_of_reached_item options input1 input2 k1 k2 x :
  let c := destructure options in
  let reached (input : list Unknown) (k : nat) :=
    Forall (fun y => row_returns stringify c y = true) (take k input) in
  (forall text,
     data_chunks (run stringify options input1) !! k1 = Some text
     <-> (Closure.columns c <> [] -> header_returns stringify c = true)
         /\ reached input1 k1
         /\ exists y,
              input1 !! k1 = Some y
              /\ stringify [y] (row_options c) = Normal text)
  /\ (input1 !! k1 = Some x ->
      input2 !! k2 = Some x ->
      reached input1 k1 ->
      reached input2 k2 ->
      data_chunks (run stringify options input1) !! k1
        = data_chunks (run stringify options input2) !! k2)
  /\ closure (run stringify options input1)
       = closure (run stringify options input2).
Proof.
  intros c reached. subst c reached. split_and!.
  - intros text. apply data_chunk_lookup_iff.
  - intros H1 H2 Hr1 Hr2. apply option_eq. intros text.
    rewrite !data_chunk_lookup_iff, H1, H2.
    split; intros (Hh & _ & Hx); by split_and!.
  - by rewrite !closure_run.
Qed.

(** * Further properties of the callbacks and of a lifetime *)

(** ** The callbacks swallow every exception *)

(** Whatever the encoder does and whatever the state of the stream, [start]
    and [transform] complete normally: what [stringify] or
    [controller.enqueue] throws is caught and handed to [controller.error],
    which does not throw.  Hence the constructor always returns an instance
    and a write never finds that its callback threw. *)
Theorem callbacks_never_throw c chunk s options :
  fst (start stringify c s) = Normal tt
  /\ fst (transform stringify c chunk s) = Normal tt
  /\ constructor stringify options = Normal (new_stream stringify options)
  /\ write stringify chunk s
       = match state s with
         | Readable => snd (transform stringify (closure s) chunk s)
         | Errored _ => s
         end.
Proof.
  split_and!.
  - apply start_normal.
  - apply transform_normal.
  - apply constructor_returns.
  - unfold write. destruct (state s); [|done].
    pose proof (transform_normal (closure s) chunk s) as H.
    destruct (transform _ _ _ _) as [[[]|t] s']; simpl in *; congruence.
Qed.

(** ** The callback on a stream that is already errored *)

(** Were [transform] run on an errored stream, the encoder would still be
    called once (the argument of [enqueue] is evaluated first), but
    [enqueue] throws, the [catch] clause hands the [TypeError] to
    [controller.error], and that does nothing: no chunk is emitted and the
    reason of the first error is kept. *)
Theorem transform_after_error c chunk s reason :
  state s = Errored reason ->
  let s' := snd (transform stringify c chunk s) in
  calls s' = calls s ++ [row_call c chunk]
  /\ emitted s' = emitted s
  /\ state s' = Errored reason
  /\ closure s' = closure s.
Proof.
  intros Hs s'. subst s'. run_callback.
  destruct (stringify [chunk] (row_options c)); simpl; rewrite Hs; simpl;
    rewrite ?Hs; done.
Qed.

(** ** The output only grows *)

Lemma emitted_pipe_prefix input s :
  emitted s `prefix_of` emitted (pipe stringify input s).
Proof.
  destruct (state s) as [|reason] eqn:Hs.
  - rewrite pipe_readable by done. simpl. by eexists.
  - rewrite (pipe_errored _ _ reason) by done. done.
Qed.

(** Writing more chunks never retracts, rewrites or reorders what has
    been emitted: the output after [input] is a prefix of the output after
    [input ++ more], and the output never has more than one chunk per
    item besides the header. *)
Theorem output_append_only options input more :
  output (run stringify options input)
    `prefix_of` output (run stringify options (input ++ more))
  /\ length (output (run stringify options input))
       <= length input
          + (if bool_decide (Closure.columns (destructure options) = [])
             then 0 else 1).
Proof.
  split.
  - unfold run, output. rewrite pipe_app.
    destruct (emitted_pipe_prefix more
                (pipe stringify input (new_stream stringify options)))
      as [k ->].
    rewrite fmap_app. by eexists.
  - unfold output. rewrite length_fmap.
    pose proof (accepted_length (destructure options) input) as Hle.
    destruct (run_cases options input)
      as [[Hc ->]|[(text & Hc & Ht & ->)|(e & Hc & Ht & ->)]];
      first [rewrite bool_decide_eq_true_2 by done
            |rewrite bool_decide_eq_false_2 by done];
      simpl; rewrite ?length_fmap; lia.
Qed.

(** ** Calls and chunks go together *)

Lemma rejected_lookup c input e :
  rejected stringify c input = Some e ->
  exists x,
    input !! length (accepted stringify c input) = Some x
    /\ stringify [x] (row_options c) = Abrupt e.
Proof.
  induction input as [|y input IH]; simpl; [done|].
  destruct (stringify [y] (row_options c)) as [t|e'] eqn:Hy; simpl.
  - exact IH.
  - intros [= ->]. by exists y.
Qed.

Lemma rejected_None c input :
  rejected stringify c input = None
  <-> Forall (fun x => row_returns stringify c x = true) input.
Proof.
  unfold row_returns. induction input as [|y input IH]; simpl.
  - split; [constructor|done].
  - rewrite Forall_cons.
    destruct (stringify [y] (row_options c)); simpl.
    + rewrite IH. by split; [|intros [_ ?]].
    + by split; [|intros [? _]].
Qed.


Lemma row_calls_length c input :
  length (row_calls c input)
    = match rejected stringify c input with
      | None => length (accepted stringify c input)
      | Some _ => S (length (accepted stringify c input))
      end.
Proof.
  rewrite length_fmap, length_take.
  pose proof (accepted_length c input) as Hle.
  destruct (rejected stringify c input) as [e|] eqn:Hr.
  - destruct (rejected_lookup _ _ _ Hr) as (x & Hx & _).
    apply lookup_lt_Some in Hx. lia.
  - apply rejected_None, accepted_all in Hr as [Hlen _]. lia.
Qed.

Lemma row_calls_last c input e :
  rejected stringify c input = Some e ->
  exists x,
    last (row_calls c input) = Some (row_call c x)
    /\ stringify [x] (row_options c) = Abrupt e.
Proof.
  intros Hr. destruct (rejected_lookup _ _ _ Hr) as (x & Hx & Hthrow).
  exists x. split; [|done].
  rewrite (take_S_r _ _ _ Hx), fmap_app. apply last_snoc.
Qed.


(** A readable stream has made as many calls as it has emitted chunks.  An
    errored stream has made exactly one call more: the last one, on which
    the encoder threw, and the reason of the error is the value thrown
    there; the [TypeError] of [enqueue] is never the reason. *)
Theorem error_reason_is_last_call options input :
  let s := run stringify options input in
  (state s = Readable -> length (calls s) = length (emitted s))
  /\ (forall reason,
        state s = Errored reason ->
        length (calls s) = S (length (emitted s))
        /\ exists k e,
             last (calls s) = Some k
             /\ stringify (call_data k) (call_options k) = Abrupt e
             /\ reason = EncoderError e).
Proof.
  intros s. subst s.
  pose proof (row_calls_length (destructure options) input) as Hlen.
  rewrite length_fmap in Hlen.
  destruct (run_cases options input)
    as [[Hc ->]|[(text & Hc & Ht & ->)|(e & Hc & Ht & ->)]]; simpl;
    rewrite ?length_fmap.
  - destruct (rejected stringify (destructure options) input) as [e|] eqn:Hr.
    + split; [done|]. intros reason [= <-]. split; [done|].
      destruct (row_calls_last _ _ _ Hr) as (x & Hlast & Hx).
      by eexists _, e.
    + by split.
  - destruct (rejected stringify (destructure options) input) as [e|] eqn:Hr.
    + split; [done|]. intros reason [= <-]. split; [by rewrite Hlen|].
      destruct (row_calls_last _ _ _ Hr) as (x & Hlast & Hx).
      exists (row_call (destructure options) x), e. split; [|done].
      rewrite last_cons, Hlast. done.
    + split; [intros _; by rewrite Hlen|done].
  - split; [done|]. intros reason [= <-]. split; [done|].
    eexists _, e. by split.
Qed.

(** The stream stays readable exactly when no call of the encoder throws:
    the header call, if [columns] is non-empty, and the call for each
    item. *)
Theorem readable_iff_encoder_returns options input :
  let c := destructure options in
  state (run stringify options input) = Readable
  <-> (Closure.columns c <> [] -> header_returns stringify c = true)
      /\ Forall (fun x => row_returns stringify c x = true) input.
Proof.
  intros c. subst c. rewrite <- rejected_None. unfold header_returns.
  destruct (run_cases options input)
    as [[Hc ->]|[(text & Hc & Ht & ->)|(e & Hc & Ht & ->)]];
    try rewrite Ht; cbn [state returns].
  - destruct (rejected _ _ _); split; try done.
    by intros [_ ?].
  - destruct (rejected _ _ _); split; try done.
    by intros [_ ?].
  - split; [done|]. intros [H _]. by specialize (H Hc).
Qed.

(** ** What the encoder is asked *)

(** Every call of a lifetime hands the encoder a batch of exactly one row
    with [headers: false], and there is at most one call per item besides
    the header call. *)
Theorem one_row_per_call options input :
  Forall (fun k => length (call_data k) = 1
                   /\ StringifyOptions.headers (call_options k) = false)
         (calls (run stringify options input))
  /\ length (calls (run stringify options input))
       <= length input
          + (if bool_decide (Closure.columns (destructure options) = [])
             then 0 else 1).
Proof.
  assert (Hrows : forall xs : list Unknown,
    Forall (fun k => length (call_data k) = 1
                     /\ StringifyOptions.headers (call_options k) = false)
           (row_call (destructure options) <$> xs)).
  { intros xs. apply Forall_fmap, Forall_forall. by intros x _. }
  assert (Htake : forall n,
    length (row_call (destructure options) <$> take n input) <= length input).
  { intros n. rewrite length_fmap, length_take. lia. }
  destruct (run_cases options input)
    as [[Hc ->]|[(text & Hc & Ht & ->)|(e & Hc & Ht & ->)]];
    first [rewrite bool_decide_eq_true_2 by done
          |rewrite bool_decide_eq_false_2 by done];
    simpl; (split; [repeat constructor; try apply Hrows|]).
  - rewrite Nat.add_0_r. apply Htake.
  - specialize (Htake (S (length (accepted stringify
                                    (destructure options) input)))). lia.
  - lia.
Qed.

End Properties.

(** * The development on concrete inputs *)

(** The three examples of the spec, with the sample encoder. *)
Example example_id_name :
  output (run Sample.stringify Sample.options_id_name Sample.input_id_name)
    = ["id,name" +:+ Sample.CR +:+ Sample.LF;
       "1,one" +:+ Sample.CR +:+ Sample.LF;
       "2,two" +:+ Sample.CR +:+ Sample.LF].
Proof. reflexivity. Qed.

Example example_rows_lf :
  output (run Sample.stringify Sample.options_rows_lf Sample.input_rows)
    = ["1,one" +:+ Sample.LF; "2,two" +:+ Sample.LF].
Proof. reflexivity. Qed.

Example example_semicolon :
  output (run Sample.stringify Sample.options_semicolon [Sample.a_b 1 2])
    = ["a;b" +:+ Sample.CR +:+ Sample.LF; "1;2" +:+ Sample.CR +:+ Sample.LF].
Proof. reflexivity. Qed.

(** C1 as stated fails where the encoder throws at the header call:
    [columns] is non-empty and yet no header chunk is produced. *)
Lemma header_chunk_missing_when_header_call_throws :
  ~ (header_chunks (run Sample.refuse Sample.options_id_name []) <> []
     <-> Closure.columns (destructure Sample.options_id_name) <> []).
Proof. intros [_ H]. apply H; [discriminate|reflexivity]. Qed.

(** C1 on the first example of the spec: one header chunk, no more. *)
Lemma header_chunk_at_most_once_witness :
  let s := run Sample.stringify Sample.options_id_name Sample.input_id_name in
  length (header_chunks s) <= 1 /\ header_chunks s <> [].
Proof.
  destruct (header_chunk_at_most_once Sample.stringify
              Sample.options_id_name Sample.input_id_name)
    as (Hle & Hiff & _).
  split; [exact Hle|].
  apply Hiff. split; [discriminate|reflexivity].
Defined.

(** C2 on the examples of the spec: 2 + 1 chunks, 0 + 1 chunks, 2 chunks. *)
Lemma chunk_count_witness :
  header_returns Sample.stringify (destructure Sample.options_id_name) = true
  /\ Forall (fun x => row_returns Sample.stringify
                        (destructure Sample.options_id_name) x = true)
            Sample.input_id_name
  /\ length (output (run Sample.stringify Sample.options_id_name
                         Sample.input_id_name)) = 3
  /\ length (output (run Sample.stringify Sample.options_id_name [])) = 1
  /\ length (output (run Sample.stringify Sample.options_rows_lf
                         Sample.input_rows)) = 2.
Proof.
  split; [reflexivity|]. split; [repeat constructor|]. split_and!.
  - apply (chunk_count Sample.stringify Sample.options_id_name
             Sample.input_id_name); [reflexivity|repeat constructor].
  - apply (chunk_count Sample.stringify Sample.options_id_name []);
      [reflexivity|constructor].
  - apply (chunk_count Sample.stringify Sample.options_rows_lf
             Sample.input_rows); [intros H; by destruct H|repeat constructor].
Defined.

(** C3 with [separator: ";"] and [columns: ["a", "b"]]. *)
Lemma header_call_once_witness :
  Closure.columns (destructure Sample.options_semicolon) <> []
  /\ calls (new_stream Sample.stringify Sample.options_semicolon)
       = [mkCall AtStart [JsArray [JsString "a"; JsString "b"]]
            (StringifyOptions.mk (Some ";") false None true)]
  /\ exists rest,
       output (run Sample.stringify Sample.options_semicolon
                 [Sample.a_b 1 2])
         = ("a;b" +:+ Sample.CR +:+ Sample.LF) :: rest.
Proof.
  assert (Hc : Closure.columns (destructure Sample.options_semicolon) <> [])
    by discriminate.
  destruct (header_call_once Sample.stringify Sample.options_semicolon
              [Sample.a_b 1 2] Hc) as (Hcalls & _ & Hfirst).
  split; [exact Hc|]. split; [exact Hcalls|].
  destruct (Hfirst ("a;b" +:+ Sample.CR +:+ Sample.LF) eq_refl) as [_ Hrest].
  exact Hrest.
Defined.

(** C4 on a second positional row, with [columns] empty. *)
Lemma row_call_per_item_witness :
  state (run Sample.stringify Sample.options_rows_lf [JsArray [JsNumber 1]])
    = Readable
  /\ calls (run Sample.stringify Sample.options_rows_lf
              ([JsArray [JsNumber 1]] ++ [JsArray [JsNumber 2]]))
       = calls (run Sample.stringify Sample.options_rows_lf
                  [JsArray [JsNumber 1]])
         ++ [mkCall AtTransform [JsArray [JsNumber 2]]
               (StringifyOptions.mk None false (Some []) false)].
Proof.
  split; [reflexivity|].
  destruct (row_call_per_item Sample.stringify Sample.options_rows_lf
              [JsArray [JsNumber 1]] (JsArray [JsNumber 2]) eq_refl)
    as (Hcalls & _ & _).
  exact Hcalls.
Defined.

(** C5: a record that lacks a column as second item, and an encoder that
    refuses the header. *)
Lemma encoder_failure_witness :
  let bad := Sample.options_semicolon in
  state (run Sample.stringify bad
           ([Sample.a_b 1 2] ++ Sample.only_a 3 :: [Sample.a_b 4 5]))
    = Errored (EncoderError "inconsistent row shape")
  /\ length (output (run Sample.stringify bad
                       ([Sample.a_b 1 2] ++ Sample.only_a 3 :: [Sample.a_b 4 5])))
       = 2
  /\ state (run Sample.refuse bad [Sample.a_b 1 2])
       = Errored (EncoderError "refused")
  /\ output (run Sample.refuse bad [Sample.a_b 1 2]) = [].
Proof.
  intros bad.
  destruct (encoder_failure Sample.stringify bad [Sample.a_b 1 2]
              (Sample.only_a 3) [Sample.a_b 4 5] [] "inconsistent row shape")
    as [Hitem _].
  destruct (Hitem ltac:(reflexivity) ltac:(repeat constructor) eq_refl)
    as (Hstate & _ & Hlen).
  destruct (encoder_failure Sample.refuse bad [] JsNull []
              [Sample.a_b 1 2] "refused") as [_ Hheader].
  destruct (Hheader ltac:(discriminate) eq_refl) as (Hstate' & Hout).
  split; [exact Hstate|]. split; [exact Hlen|]. split; [exact Hstate'|].
  exact Hout.
Defined.

(** C6: the second data chunk of the first example is the second record. *)
Lemma data_chunks_in_order_witness :
  exists x,
    Sample.input_id_name !! 1 = Some x
    /\ Sample.stringify [x]
         (row_options (destructure Sample.options_id_name))
       = Normal ("2,two" +:+ Sample.CR +:+ Sample.LF).
Proof.
  destruct (data_chunks_in_order Sample.stringify Sample.options_id_name
              Sample.input_id_name) as (_ & _ & _ & Hk & _).
  apply (Hk 1). reflexivity.
Defined.

(** C7: an instance built without options and one built with the defaults
    spelled out, fed the same two rows, their writes interleaved with each
    other and with a third instance. *)
Lemma same_configuration_same_output_witness :
  let spelled :=
    Some (CsvStringifyStreamOptions.mk None (Some []) (Some true)) in
  let r := exec Sample.stringify [OpNew None; OpNew spelled] [] in
  let ops := [OpWrite 0 (JsArray [JsNumber 1; JsString "one"]);
              OpNew Sample.options_id_name;
              OpWrite 1 (JsArray [JsNumber 1; JsString "one"]);
              OpWrite 2 (Sample.id_name 7 "seven");
              OpWrite 1 (JsArray [JsNumber 2; JsString "two"]);
              OpWrite 0 (JsArray [JsNumber 2; JsString "two"])] in
  exists si sj,
    exec Sample.stringify ops r !! 0 = Some si
    /\ exec Sample.stringify ops r !! 1 = Some sj
    /\ output si = output sj
    /\ output si = ["1,one" +:+ Sample.CR +:+ Sample.LF;
                    "2,two" +:+ Sample.CR +:+ Sample.LF].
Proof.
  intros spelled r ops.
  destruct (same_configuration_same_output Sample.stringify ops r 0 1
              None spelled eq_refl eq_refl eq_refl eq_refl)
    as (si & sj & Hi & Hj & Hout & Hexp & _).
  exists si, sj. split; [exact Hi|]. split; [exact Hj|].
  split; [exact Hout|exact Hexp].
Defined.

(** C8: the closure after an accepted and a rejected record. *)
Lemma configuration_fixed_witness :
  closure (run Sample.stringify Sample.options_semicolon
             [Sample.a_b 1 2; Sample.only_a 3])
    = Closure.mk (Some ";") ["a"; "b"] true.
Proof.
  destruct (configuration_fixed Sample.stringify Sample.options_semicolon
              [Sample.a_b 1 2; Sample.only_a 3]) as (Hclosure & _).
  exact Hclosure.
Defined.

(** C9: no options object, positional rows. *)
Lemma omitted_options_witness :
  run Sample.stringify Sample.options_none Sample.input_rows
    = run Sample.stringify
        (Some (CsvStringifyStreamOptions.mk None (Some []) (Some true)))
        Sample.input_rows
  /\ header_chunks (run Sample.stringify Sample.options_none Sample.input_rows)
       = [].
Proof.
  destruct (omitted_options Sample.stringify Sample.input_rows None None None)
    as (_ & Hrun & _ & Hheader & _).
  split; [exact Hrun|exact Hheader].
Defined.

(** C10 as stated fails where the item put in place of an earlier one is
    rejected by the encoder: the second item is the same in both inputs, it
    has its chunk after an accepted first item and none after a rejected
    one. *)
Lemma data_chunk_lost_after_rejected_item :
  ([Sample.a_b 1 2; Sample.a_b 4 5] : list Unknown) !! 1
    = ([Sample.only_a 3; Sample.a_b 4 5] : list Unknown) !! 1
  /\ data_chunks (run Sample.stringify Sample.options_semicolon
                    [Sample.a_b 1 2; Sample.a_b 4 5]) !! 1
       = Some ("4;5" +:+ Sample.CR +:+ Sample.LF)
  /\ data_chunks (run Sample.stringify Sample.options_semicolon
                    [Sample.only_a 3; Sample.a_b 4 5]) !! 1
       = None.
Proof. split; [reflexivity|]. split; reflexivity. Qed.

(** C10 (amended): the same record alone and as second item after an
    accepted one. *)
Lemma data_chunk_of_reached_item_witness :
  data_chunks (run Sample.stringify Sample.options_semicolon
                 [Sample.a_b 4 5]) !! 0
    = data_chunks (run Sample.stringify Sample.options_semicolon
                     [Sample.a_b 1 2; Sample.a_b 4 5]) !! 1
  /\ data_chunks (run Sample.stringify Sample.options_semicolon
                    [Sample.a_b 4 5]) !! 0
       = Some ("4;5" +:+ Sample.CR +:+ Sample.LF).
Proof.
  destruct (data_chunk_of_reached_item Sample.stringify
              Sample.options_semicolon
              [Sample.a_b 4 5] [Sample.a_b 1 2; Sample.a_b 4 5] 0 1
              (Sample.a_b 4 5)) as (Hiff & Heq & _).
  split.
  - apply Heq; [reflexivity|reflexivity|constructor|repeat constructor].
  - apply Hiff. split; [reflexivity|]. split; [constructor|].
    exists (Sample.a_b 4 5). split; reflexivity.
Defined.

(** The callback run on a stream errored by a record that lacks a column:
    the header stays the only chunk and the reason is kept. *)
Lemma transform_after_error_witness :
  let s := run Sample.stringify Sample.options_semicolon [Sample.only_a 3] in
  let s' := snd (transform Sample.stringify (closure s) (Sample.a_b 1 2) s) in
  state s = Errored (EncoderError "inconsistent row shape")
  /\ emitted s' = emitted s
  /\ state s' = Errored (EncoderError "inconsistent row shape").
Proof.
  intros s s'. split; [reflexivity|].
  destruct (transform_after_error Sample.stringify (closure s)
              (Sample.a_b 1 2) s (EncoderError "inconsistent row shape")
              eq_refl) as (_ & Hemitted & Hstate & _).
  split; [exact Hemitted|exact Hstate].
Defined.


(** An accepted record, then a rejected one: three calls, two chunks. *)
Lemma error_reason_is_last_call_witness :
  let s := run Sample.stringify Sample.options_semicolon
             [Sample.a_b 1 2; Sample.only_a 3] in
  state s = Errored (EncoderError "inconsistent row shape")
  /\ length (calls s) = S (length (emitted s)).
Proof.
  intros s. split; [reflexivity|].
  destruct (error_reason_is_last_call Sample.stringify
              Sample.options_semicolon [Sample.a_b 1 2; Sample.only_a 3])
    as [_ Herr].
  destruct (Herr (EncoderError "inconsistent row shape") eq_refl)
    as [Hlen _].
  exact Hlen.
Defined.

(** The first example stays readable; a refused header does not. *)
Lemma readable_iff_encoder_returns_witness :
  state (run Sample.stringify Sample.options_id_name Sample.input_id_name)
    = Readable
  /\ state (run Sample.refuse Sample.options_id_name Sample.input_id_name)
       <> Readable.
Proof.
  split.
  - apply (readable_iff_encoder_returns Sample.stringify
             Sample.options_id_name Sample.input_id_name).
    split; [reflexivity|repeat constructor].
  - intros H.
    apply (readable_iff_encoder_returns Sample.refuse
             Sample.options_id_name Sample.input_id_name) in H as [Hh _].
    specialize (Hh ltac:(discriminate)). discriminate Hh.
Defined.
